(** * Grid querying: the sorting controller

    A shallow embedding of [ts/Grid/Core/Querying/SortingController.ts].

    The controller is a mutable object whose methods run to completion; a
    method is modelled as a function from the world before the call to the
    completion of the call, in a small state-and-completion monad.  The world
    holds the controller (with the querying controller and the grid options
    it reaches through [this.querying]) and the lines written with
    [console.warn]. *)

From Stdlib Require Import String List Bool Arith Lia.
Import ListNotations.
Local Open Scope string_scope.
Local Open Scope list_scope.

(** ** Values *)

(** A value of [ColumnSortingOrder] at run time.  The declared type is a
    union of two string literals and [null]; it is erased by compilation, and
    an order read from the grid options reaches the controller as whatever
    string the options hold.  The type stops at [null] and strings:
    [undefined] and values of other kinds are not orders of this model. *)
Inductive ColumnSortingOrder : Type :=
| null : ColumnSortingOrder
| str : string -> ColumnSortingOrder.

(** Modelled from the spec: the two literals of [ColumnSortingOrder], which
    is declared in [../Options.ts]; that file is not part of the sources at
    hand.  The spec names the orders ascending, descending and none (null). *)
Definition ascending : ColumnSortingOrder := str "asc".
Definition descending : ColumnSortingOrder := str "desc".

(** Modelled from the spec: membership of the enumerated set
    "ascending, descending, none/null". *)
Definition enumerated (o : ColumnSortingOrder) : bool :=
  match o with
  | null => true
  | str s => String.eqb s "asc" || String.eqb s "desc"
  end.

(** A comparator is a function object; the controller only passes the
    reference along, so it is modelled by its identity. *)
Inductive CompareFn : Type :=
| fnRef : nat -> CompareFn.

(** [ToBoolean] on the values the controller tests. *)
Definition truthy_string (s : string) : bool :=
  negb (String.eqb s EmptyString).

(** [if (order)] on an order: [null] and the empty string are falsy. *)
Definition truthy_order (o : ColumnSortingOrder) : bool :=
  match o with
  | null => false
  | str s => truthy_string s
  end.

(** [if (columnId)] on a value that is [undefined] ([None]) or a string. *)
Definition truthy_id (c : option string) : bool :=
  match c with
  | Some s => truthy_string s
  | None => false
  end.

(** Strict equality [===] on orders, on optional orders and on optional
    identifiers. *)
Definition order_eqb (a b : ColumnSortingOrder) : bool :=
  match a, b with
  | null, null => true
  | str x, str y => String.eqb x y
  | _, _ => false
  end.

Definition opt_order_eqb (a b : option ColumnSortingOrder) : bool :=
  match a, b with
  | None, None => true
  | Some x, Some y => order_eqb x y
  | _, _ => false
  end.

Definition opt_id_eqb (a b : option string) : bool :=
  match a, b with
  | None, None => true
  | Some x, Some y => String.eqb x y
  | _, _ => false
  end.

(** ** Data model *)

(** [SortingController.SortingState]: [columnId?: string] and
    [order: ColumnSortingOrder]. *)
Record SortingState : Type := mkSortingState {
  columnId : option string;
  order : ColumnSortingOrder
}.

(** The [sorting] part of a column's options. *)
Record ColumnSortingOptions : Type := mkColumnSortingOptions {
  sorting_order : option ColumnSortingOrder;
  sorting_compare : option CompareFn
}.

(** A column's options; only [sorting] is read here. *)
Record ColumnOptions : Type := mkColumnOptions {
  sorting : option ColumnSortingOptions
}.

(** The literal [{}]. *)
Definition emptyColumnOptions : ColumnOptions := {| sorting := None |}.

(** An entry of [grid.columnOptionsMap]; the controller reads [?.options]. *)
Record ColumnOptionsMapItem : Type := mkColumnOptionsMapItem {
  options : option ColumnOptions
}.

(** [grid.columnOptionsMap]: an object used as a map from column identifier
    to entry.  The list holds its own properties in the order in which
    [Object.keys] enumerates them, which for identifiers that are not array
    indices is the order in which the columns were declared. *)
Definition ColumnOptionsMap : Type := list (string * ColumnOptionsMapItem).

(** [Object.keys(columnOptionsMap)]. *)
Definition Object_keys (m : ColumnOptionsMap) : list string := map fst m.

(** [columnOptionsMap[columnId]]. *)
Fixpoint lookup (m : ColumnOptionsMap) (key : string)
  : option ColumnOptionsMapItem :=
  match m with
  | [] => None
  | (k, item) :: rest => if String.eqb k key then Some item else lookup rest key
  end.

(** The options handed to [new SortModifier(...)]. *)
Record SortModifier : Type := mkSortModifier {
  orderByColumn : string;
  direction : ColumnSortingOrder;
  compare : option CompareFn
}.

Record Grid : Type := mkGrid {
  columnOptionsMap : option ColumnOptionsMap
}.

Record QueryingController : Type := mkQueryingController {
  grid : Grid;
  shouldBeUpdated : bool
}.

Record SortingController : Type := mkSortingController {
  querying : QueryingController;
  currentSorting : option SortingState;
  initialSorting : option SortingState;
  modifier : option SortModifier
}.

(** [constructor(querying)]: the three optional properties start unset. *)
Definition constructor (q : QueryingController) : SortingController :=
  {| querying := q;
     currentSorting := None;
     initialSorting := None;
     modifier := None |}.

(** ** Worlds, completions and the method monad *)

Record World : Type := mkWorld {
  this : SortingController;
  console : list string
}.

(** Modelled from the spec: the kinds of error the spec names.  No statement
    of the controller throws. *)
Inductive ErrorKind : Type :=
| InvalidArgument : ErrorKind.

Inductive Completion (A : Type) : Type :=
| Normal : A -> Completion A
| Throw : ErrorKind -> Completion A.
Arguments Normal {A} _.
Arguments Throw {A} _.

Definition M (A : Type) : Type := World -> Completion (A * World).

Definition ret {A : Type} (a : A) : M A := fun w => Normal (a, w).

Definition bind {A B : Type} (m : M A) (f : A -> M B) : M B :=
  fun w =>
    match m w with
    | Normal (a, w') => f a w'
    | Throw e => Throw e
    end.

Notation "x <- m ;; k" := (bind m (fun x => k))
  (at level 61, m at next level, right associativity).
Notation "m ;;; k" := (bind m (fun _ => k))
  (at level 61, right associativity).

(** Reading and writing [this]. *)
Definition getThis : M SortingController := fun w => Normal (this w, w).

Definition putThis (c : SortingController) : M unit :=
  fun w => Normal (tt, {| this := c; console := console w |}).

(** [console.warn(msg)]. *)
Definition console_warn (msg : string) : M unit :=
  fun w => Normal (tt, {| this := this w; console := console w ++ [msg] |}).

(** ** Field updates *)

Definition set_shouldBeUpdated (b : bool) (q : QueryingController)
  : QueryingController :=
  {| grid := grid q; shouldBeUpdated := b |}.

Definition set_querying (q : QueryingController) (c : SortingController)
  : SortingController :=
  {| querying := q;
     currentSorting := currentSorting c;
     initialSorting := initialSorting c;
     modifier := modifier c |}.

Definition set_currentSorting (s : option SortingState) (c : SortingController)
  : SortingController :=
  {| querying := querying c;
     currentSorting := s;
     initialSorting := initialSorting c;
     modifier := modifier c |}.

Definition set_initialSorting (s : option SortingState) (c : SortingController)
  : SortingController :=
  {| querying := querying c;
     currentSorting := currentSorting c;
     initialSorting := s;
     modifier := modifier c |}.

Definition set_modifier (m : option SortModifier) (c : SortingController)
  : SortingController :=
  {| querying := querying c;
     currentSorting := currentSorting c;
     initialSorting := initialSorting c;
     modifier := m |}.

(** ** Reading the column options *)

(** [columnOptionsMap[columnId]?.options || {}]. *)
Definition columnOptionsOf (m : ColumnOptionsMap) (key : string)
  : ColumnOptions :=
  match lookup m key with
  | Some item =>
      match options item with
      | Some o => o
      | None => emptyColumnOptions
      end
  | None => emptyColumnOptions
  end.

(** [columnOptions.sorting?.order]. *)
Definition declaredOrder (m : ColumnOptionsMap) (key : string)
  : option ColumnSortingOrder :=
  match sorting (columnOptionsOf m key) with
  | Some s => sorting_order s
  | None => None
  end.

(** [columnOptionsMap?.[columnId]?.options?.sorting?.compare]. *)
Definition declaredCompare (m : option ColumnOptionsMap) (key : string)
  : option CompareFn :=
  match m with
  | None => None
  | Some m' =>
      match lookup m' key with
      | None => None
      | Some item =>
          match options item with
          | None => None
          | Some o =>
              match sorting o with
              | None => None
              | Some s => sorting_compare s
              end
          end
      end
  end.

(** ** The methods *)

(** [createModifier()].  After the guard [columnId] is a string; the inner
    match is that narrowing. *)
Definition createModifier : M (option SortModifier) :=
  self <- getThis ;;
  match currentSorting self with
  | None => ret None
  | Some cur =>
      if negb (truthy_order (order cur)) || negb (truthy_id (columnId cur))
      then ret None
      else
        match columnId cur with
        | None => ret None
        | Some id =>
            ret (Some {| orderByColumn := id;
                         direction := order cur;
                         compare :=
                           declaredCompare
                             (columnOptionsMap (grid (querying self))) id |})
        end
  end.

(** [this.currentSorting?.columnId] and [this.currentSorting?.order]. *)
Definition columnId_of (s : option SortingState) : option string :=
  match s with
  | Some st => columnId st
  | None => None
  end.

Definition order_of (s : option SortingState) : option ColumnSortingOrder :=
  match s with
  | Some st => Some (order st)
  | None => None
  end.

(** [setSorting(order, columnId?)]. *)
Definition setSorting (order0 : ColumnSortingOrder) (columnId0 : option string)
  : M unit :=
  self <- getThis ;;
  (if negb (opt_id_eqb (columnId_of (currentSorting self)) columnId0)
      || negb (opt_order_eqb (order_of (currentSorting self)) (Some order0))
   then
     putThis
       (set_currentSorting
          (Some {| columnId := columnId0; order := order0 |})
          (set_querying (set_shouldBeUpdated true (querying self)) self))
   else ret tt) ;;;
  m <- createModifier ;;
  self' <- getThis ;;
  putThis (set_modifier m self').

(** The double-quote character. *)
Definition dquote : string := String (Ascii.ascii_of_nat 34) EmptyString.

(** The text of the conflict warning. *)
Definition conflictWarning (foundColumnId : string) : string :=
  "Grid: Only one column can be sorted at a time. " ++
  "Data will be sorted only by the last found column " ++
  "with the sorting order defined in the options: " ++
  dquote ++ foundColumnId ++ dquote ++ ".".

(** The body of the [for] loop of [getSortingOptions], for the indices
    below [n] (the loop variable [i] is [n - 1]); [foundOrder] and
    [foundColumnId] are the two [let] variables.  The result is their value
    when the loop is left, by exhaustion or by [break]. *)
Fixpoint scanColumns (m : ColumnOptionsMap) (columnIDs : list string)
    (n : nat) (foundOrder : ColumnSortingOrder)
    (foundColumnId : option string)
  : M (ColumnSortingOrder * option string) :=
  match n with
  | O => ret (foundOrder, foundColumnId)
  | S i =>
      let columnId0 := nth i columnIDs EmptyString in
      match declaredOrder m columnId0 with
      | Some order0 =>
          if truthy_order order0 then
            match foundColumnId with
            | Some found =>
                if truthy_string found then
                  console_warn (conflictWarning found) ;;;
                  ret (foundOrder, foundColumnId)
                else scanColumns m columnIDs i order0 (Some columnId0)
            | None => scanColumns m columnIDs i order0 (Some columnId0)
            end
          else scanColumns m columnIDs i foundOrder foundColumnId
      | None => scanColumns m columnIDs i foundOrder foundColumnId
      end
  end.

(** [getSortingOptions()]. *)
Definition getSortingOptions : M SortingState :=
  self <- getThis ;;
  match columnOptionsMap (grid (querying self)) with
  | None => ret {| columnId := None; order := null |}
  | Some m =>
      let columnIDs := Object_keys m in
      found <- scanColumns m columnIDs (length columnIDs) null None ;;
      ret {| columnId := snd found; order := fst found |}
  end.

(** [loadOptions()]. *)
Definition loadOptions : M unit :=
  stateFromOptions <- getSortingOptions ;;
  self <- getThis ;;
  if negb (opt_id_eqb (columnId stateFromOptions)
                      (columnId_of (initialSorting self)))
     || negb (opt_order_eqb (Some (order stateFromOptions))
                            (order_of (initialSorting self)))
  then
    putThis (set_initialSorting (Some stateFromOptions) self) ;;;
    setSorting (order stateFromOptions) (columnId stateFromOptions)
  else ret tt.

(** ** The host *)

(** Modelled from the spec: the recomputation step, which is outside the
    controller, clears the dirty flag; [withShouldBeUpdated b] is the host
    assigning [querying.shouldBeUpdated = b]. *)
Definition withShouldBeUpdated (b : bool) (w : World) : World :=
  {| this := set_querying (set_shouldBeUpdated b (querying (this w))) (this w);
     console := console w |}.

Definition clearShouldBeUpdated : World -> World := withShouldBeUpdated false.

(** The host replacing [grid.columnOptionsMap]. *)
Definition withColumnOptionsMap (m : option ColumnOptionsMap) (w : World)
  : World :=
  {| this :=
       set_querying
         {| grid := {| columnOptionsMap := m |};
            shouldBeUpdated := shouldBeUpdated (querying (this w)) |}
         (this w);
     console := console w |}.

(** What the host may do to a controller between two recomputations. *)
Inductive HostCall : Type :=
| CallSetSorting : ColumnSortingOrder -> option string -> HostCall
| CallLoadOptions : HostCall
| CallReconfigure : option ColumnOptionsMap -> HostCall.

Definition call (c : HostCall) : M unit :=
  match c with
  | CallSetSorting o id => setSorting o id
  | CallLoadOptions => loadOptions
  | CallReconfigure m => fun w => Normal (tt, withColumnOptionsMap m w)
  end.

Fixpoint calls (cs : list HostCall) : M unit :=
  match cs with
  | [] => ret tt
  | c :: rest => call c ;;; calls rest
  end.

(** The calls that are methods of the controller, as opposed to the host
    replacing the options. *)
Definition isControllerCall (c : HostCall) : bool :=
  match c with
  | CallSetSorting _ _ => true
  | CallLoadOptions => true
  | CallReconfigure _ => false
  end.

(** A world with a freshly constructed controller and an empty console. *)
Definition freshWorld (m : option ColumnOptionsMap) : World :=
  {| this :=
       constructor {| grid := {| columnOptionsMap := m |};
                      shouldBeUpdated := false |};
     console := [] |}.

(** A column entry that declares [order] and no comparator, and one that
    declares both. *)
Definition columnWithOrder (o : ColumnSortingOrder) : ColumnOptionsMapItem :=
  {| options :=
       Some {| sorting :=
                 Some {| sorting_order := Some o;
                         sorting_compare := None |} |} |}.

Definition columnWithCompare (o : ColumnSortingOrder) (f : CompareFn)
  : ColumnOptionsMapItem :=
  {| options :=
       Some {| sorting :=
                 Some {| sorting_order := Some o;
                         sorting_compare := Some f |} |} |}.

(** ** Derived descriptions used in the statements *)

(** The new pair differs field by field from the stored one; an unset
    [currentSorting] differs from every pair. *)
Definition differs (cur : option SortingState) (id : option string)
    (o : ColumnSortingOrder) : Prop :=
  match cur with
  | None => True
  | Some s => columnId s <> id \/ order s <> o
  end.

(** The columns that declare a non-empty sorting order, in the order in
    which [Object.keys] enumerates them. *)
Definition declaresOrder (m : ColumnOptionsMap) (key : string) : bool :=
  match declaredOrder m key with
  | Some o => truthy_order o
  | None => false
  end.

Definition sortedColumns (m : ColumnOptionsMap) : list string :=
  filter (declaresOrder m) (Object_keys m).

(** The last column, in the order of [Object.keys], that declares a
    non-empty order, if any.  It is the last one declared unless an
    identifier is an array index, which [Object.keys] moves to the front. *)
Definition lastSortedColumn (m : ColumnOptionsMap) : option string :=
  last (map Some (sortedColumns m)) None.

(** The order a column declares, [null] when it declares none. *)
Definition orderOfColumn (m : ColumnOptionsMap) (key : string)
  : ColumnSortingOrder :=
  match declaredOrder m key with
  | Some o => o
  | None => null
  end.

(** The state and the warnings that [getSortingOptions] derives from a
    configuration, obtained by running it on a fresh controller. *)
Definition stateFromOptions (cfg : option ColumnOptionsMap) : SortingState :=
  match getSortingOptions (freshWorld cfg) with
  | Normal (s, _) => s
  | Throw _ => {| columnId := None; order := null |}
  end.

Definition warningsFromOptions (cfg : option ColumnOptionsMap) : list string :=
  match getSortingOptions (freshWorld cfg) with
  | Normal (_, w) => console w
  | Throw _ => []
  end.

(** The configuration a world's controller reads. *)
Definition configOf (w : World) : option ColumnOptionsMap :=
  columnOptionsMap (grid (querying (this w))).

(** The modifier [createModifier] builds for a controller. *)
Definition modifierOf (self : SortingController) : option SortModifier :=
  match createModifier {| this := self; console := [] |} with
  | Normal (m, _) => m
  | Throw _ => None
  end.

(** ** Sample configurations and worlds *)

(** Columns [A] and [B], declared in that order, both with an order. *)
Definition conflictingColumns : ColumnOptionsMap :=
  [("A", columnWithOrder ascending); ("B", columnWithOrder descending)].

(** Three columns that all declare an order. *)
Definition threeSortedColumns : ColumnOptionsMap :=
  [("A", columnWithOrder ascending); ("B", columnWithOrder descending);
   ("C", columnWithOrder ascending)].

(** Two columns that declare an order; the last one has the empty string
    as its identifier. *)
Definition emptyIdColumns : ColumnOptionsMap :=
  [("a", columnWithOrder ascending);
   (EmptyString, columnWithOrder descending)].

(** Columns that declare no order, or an empty one. *)
Definition unsortedColumns : ColumnOptionsMap :=
  [("A", {| options := None |});
   ("B", {| options := Some {| sorting := None |} |});
   ("C", columnWithOrder null);
   ("D", columnWithOrder (str EmptyString))].

(** Three columns that declare an order; the last one has the empty string
    as its identifier. *)
Definition trailingEmptyIdColumns : ColumnOptionsMap :=
  [("x", columnWithOrder ascending); ("y", columnWithOrder descending);
   (EmptyString, columnWithOrder ascending)].

(** One column that declares an order among columns that declare none. *)
Definition singleSortedColumns : ColumnOptionsMap :=
  [("A", {| options := None |}); ("B", columnWithOrder descending);
   ("C", columnWithOrder null)].

(** A controller that loaded options sorting by [B], in a grid whose
    options have since lost every sorting declaration. *)
Definition sortingRemovedWorld : World :=
  {| this :=
       {| querying :=
            {| grid := {| columnOptionsMap := Some unsortedColumns |};
               shouldBeUpdated := false |};
          currentSorting := Some {| columnId := Some "B"; order := descending |};
          initialSorting := Some {| columnId := Some "B"; order := descending |};
          modifier := Some {| orderByColumn := "B";
                              direction := descending;
                              compare := None |} |};
     console := [] |}.

(** A controller with the given current state, nothing else set. *)
Definition worldWithCurrent (m : option ColumnOptionsMap)
    (cur : option SortingState) : World :=
  {| this :=
       set_currentSorting cur
         (constructor {| grid := {| columnOptionsMap := m |};
                         shouldBeUpdated := false |});
     console := [] |}.

(** A controller sorted by [A] whose modifier was built with comparator 1,
    in a grid whose column [A] now declares comparator 2. *)
Definition staleComparatorWorld : World :=
  {| this :=
       {| querying :=
            {| grid :=
                 {| columnOptionsMap :=
                      Some [("A", columnWithCompare ascending (fnRef 2))] |};
               shouldBeUpdated := false |};
          currentSorting := Some {| columnId := Some "A"; order := ascending |};
          initialSorting := Some {| columnId := Some "A"; order := ascending |};
          modifier := Some {| orderByColumn := "A";
                              direction := ascending;
                              compare := Some (fnRef 1) |} |};
     console := [] |}.

(** * Properties *)

(** ** Strict equality decides equality *)

Lemma order_eqb_eq (a b : ColumnSortingOrder) :
  order_eqb a b = true <-> a = b.
Proof.
  destruct a as [|x], b as [|y]; simpl; split; intro H;
    try reflexivity; try discriminate.
  - apply String.eqb_eq in H. now subst.
  - injection H as ->. apply String.eqb_refl.
Qed.

Lemma opt_id_eqb_eq (a b : option string) :
  opt_id_eqb a b = true <-> a = b.
Proof.
  destruct a as [x|], b as [y|]; simpl; split; intro H;
    try reflexivity; try discriminate.
  - apply String.eqb_eq in H. now subst.
  - injection H as ->. apply String.eqb_refl.
Qed.

Lemma opt_order_eqb_eq (a b : option ColumnSortingOrder) :
  opt_order_eqb a b = true <-> a = b.
Proof.
  destruct a as [x|], b as [y|]; simpl; split; intro H;
    try reflexivity; try discriminate.
  - apply order_eqb_eq in H. now subst.
  - injection H as ->. now apply order_eqb_eq.
Qed.

Lemma opt_id_eqb_refl (a : option string) : opt_id_eqb a a = true.
Proof. now apply opt_id_eqb_eq. Qed.

Lemma opt_order_eqb_refl (a : option ColumnSortingOrder) :
  opt_order_eqb a a = true.
Proof. now apply opt_order_eqb_eq. Qed.

(** The test of [setSorting] is false exactly when the stored state is the
    pair of the arguments. *)
Lemma setSorting_test_false (cur : option SortingState) (id : option string)
    (o : ColumnSortingOrder) :
  negb (opt_id_eqb (columnId_of cur) id)
    || negb (opt_order_eqb (order_of cur) (Some o)) = false
  <-> cur = Some {| columnId := id; order := o |}.
Proof.
  rewrite orb_false_iff, !negb_false_iff, opt_id_eqb_eq, opt_order_eqb_eq.
  destruct cur as [[c0 o0]|]; simpl; split.
  - intros [-> [= ->]]. reflexivity.
  - intros [= -> ->]. split; reflexivity.
  - intros [_ H]. discriminate.
  - discriminate.
Qed.

Lemma setSorting_test_true (cur : option SortingState) (id : option string)
    (o : ColumnSortingOrder) :
  negb (opt_id_eqb (columnId_of cur) id)
    || negb (opt_order_eqb (order_of cur) (Some o)) = true
  <-> differs cur id o.
Proof.
  rewrite orb_true_iff, !negb_true_iff.
  destruct cur as [[c0 o0]|]; simpl.
  - split.
    + intros [H|H]; [left|right]; intros ->.
      * now rewrite opt_id_eqb_refl in H.
      * destruct o; simpl in H; [discriminate|].
        now rewrite String.eqb_refl in H.
    + intros [H|H]; [left|right].
      * destruct (opt_id_eqb c0 id) eqn:E; [|reflexivity].
        apply opt_id_eqb_eq in E. contradiction.
      * destruct (order_eqb o0 o) eqn:E; [|reflexivity].
        apply order_eqb_eq in E. contradiction.
  - split; [trivial|]. intros _. right. reflexivity.
Qed.

Lemma differs_dec (cur : option SortingState) (id : option string)
    (o : ColumnSortingOrder) :
  differs cur id o \/ cur = Some {| columnId := id; order := o |}.
Proof.
  destruct (negb (opt_id_eqb (columnId_of cur) id)
            || negb (opt_order_eqb (order_of cur) (Some o))) eqn:E.
  - left. now apply setSorting_test_true.
  - right. now apply setSorting_test_false.
Qed.

Lemma differs_not_same (cur : option SortingState) (id : option string)
    (o : ColumnSortingOrder) :
  differs cur id o <-> cur <> Some {| columnId := id; order := o |}.
Proof.
  split.
  - intros D ->. simpl in D. destruct D as [D|D]; now apply D.
  - intros N. destruct (differs_dec cur id o) as [D|E]; [exact D|].
    contradiction.
Qed.

(** ** What a call does to the world *)

Lemma createModifier_run (w : World) :
  createModifier w = Normal (modifierOf (this w), w).
Proof.
  destruct w as [self cons]. unfold modifierOf, createModifier, bind, getThis.
  simpl. destruct (currentSorting self) as [[c o]|]; simpl; [|reflexivity].
  destruct (negb (truthy_order o) || negb (truthy_id c)); [reflexivity|].
  destruct c; reflexivity.
Qed.

(** The controller after [setSorting order id]. *)
Lemma setSorting_run (o : ColumnSortingOrder) (id : option string) (w : World) :
  setSorting o id w =
  Normal (tt,
    let self1 :=
      if negb (opt_id_eqb (columnId_of (currentSorting (this w))) id)
         || negb (opt_order_eqb (order_of (currentSorting (this w))) (Some o))
      then set_currentSorting (Some {| columnId := id; order := o |})
             (set_querying (set_shouldBeUpdated true (querying (this w)))
                (this w))
      else this w in
    {| this := set_modifier (modifierOf self1) self1; console := console w |}).
Proof.
  destruct w as [self cons]. unfold setSorting, bind, getThis. simpl.
  destruct (negb (opt_id_eqb (columnId_of (currentSorting self)) id)
            || negb (opt_order_eqb (order_of (currentSorting self)) (Some o)));
    unfold putThis, ret; simpl; rewrite createModifier_run; reflexivity.
Qed.

(** ** The scan of the column options *)

Lemma world_eta (w : World) :
  {| this := this w; console := console w |} = w.
Proof. now destruct w. Qed.

(** The scan never throws, leaves the controller alone, and its result and
    its warnings do not depend on the world it runs in. *)
Lemma scanColumns_frame (m : ColumnOptionsMap) (ids : list string) (n : nat) :
  forall fo fc, exists r ws, forall w,
    scanColumns m ids n fo fc w =
    Normal (r, {| this := this w; console := console w ++ ws |}).
Proof.
  induction n as [|i IH]; intros fo fc.
  - exists (fo, fc), []. intros w. unfold scanColumns, ret.
    now rewrite app_nil_r, world_eta.
  - simpl. destruct (declaredOrder m (nth i ids EmptyString)) as [o|];
      [|apply IH].
    destruct (truthy_order o); [|apply IH].
    destruct fc as [found|]; [|apply IH].
    destruct (truthy_string found); [|apply IH].
    exists (fo, Some found), [conflictWarning found]. intros w. reflexivity.
Qed.

Lemma getSortingOptions_run (w : World) :
  getSortingOptions w =
  Normal (stateFromOptions (configOf w),
          {| this := this w;
             console := console w ++ warningsFromOptions (configOf w) |}).
Proof.
  unfold stateFromOptions, warningsFromOptions, getSortingOptions, configOf,
    bind, getThis.
  simpl. destruct (columnOptionsMap (grid (querying (this w)))) as [m|].
  - destruct (scanColumns_frame m (Object_keys m) (length (Object_keys m))
                null None) as (r & ws & H).
    rewrite !H. reflexivity.
  - unfold ret. simpl. now rewrite app_nil_r, world_eta.
Qed.

(** [loadOptions] scans, then either hands the derived state to
    [setSorting] or stops. *)
Lemma loadOptions_run (w : World) :
  loadOptions w =
  let s := stateFromOptions (configOf w) in
  let w1 := {| this := this w;
               console := console w ++ warningsFromOptions (configOf w) |} in
  if negb (opt_id_eqb (columnId s) (columnId_of (initialSorting (this w))))
     || negb (opt_order_eqb (Some (order s))
                            (order_of (initialSorting (this w))))
  then setSorting (order s) (columnId s)
         {| this := set_initialSorting (Some s) (this w);
            console := console w1 |}
  else Normal (tt, w1).
Proof.
  unfold loadOptions, bind at 1. rewrite getSortingOptions_run.
  unfold bind, getThis. simpl.
  destruct (negb _ || negb _); reflexivity.
Qed.

Lemma loadOptions_test_false (s : SortingState) (ini : option SortingState) :
  negb (opt_id_eqb (columnId s) (columnId_of ini))
    || negb (opt_order_eqb (Some (order s)) (order_of ini)) = false
  <-> ini = Some s.
Proof.
  rewrite orb_false_iff, !negb_false_iff, opt_id_eqb_eq, opt_order_eqb_eq.
  destruct s as [c o], ini as [[c0 o0]|]; simpl; split.
  - intros [-> [= ->]]. reflexivity.
  - intros [= -> ->]. split; reflexivity.
  - intros [_ H]. discriminate.
  - discriminate.
Qed.

(** Indices whose column declares no order are passed over. *)
Lemma scanColumns_skip (m : ColumnOptionsMap) (ids : list string) (n d : nat) :
  (forall i, n <= i < d + n ->
     declaresOrder m (nth i ids EmptyString) = false) ->
  forall fo fc,
    scanColumns m ids (d + n) fo fc = scanColumns m ids n fo fc.
Proof.
  induction d as [|d IH]; intros H fo fc; [reflexivity|].
  simpl. assert (E := H (d + n) ltac:(lia)). unfold declaresOrder in E.
  destruct (declaredOrder m (nth (d + n) ids EmptyString)) as [o|].
  - rewrite E. apply IH. intros i Hi. apply H. lia.
  - apply IH. intros i Hi. apply H. lia.
Qed.

(** Once a column with a non-empty identifier is found, the next column
    that declares an order ends the scan with one warning. *)
Lemma scanColumns_conflict (m : ColumnOptionsMap) (ids : list string)
    (k : string) (o : ColumnSortingOrder) (n : nat) :
  truthy_string k = true ->
  (exists j, j < n /\ declaresOrder m (nth j ids EmptyString) = true) ->
  forall w,
    scanColumns m ids n o (Some k) w =
    Normal ((o, Some k),
            {| this := this w; console := console w ++ [conflictWarning k] |}).
Proof.
  intros Hk. induction n as [|i IH]; intros (j & Hj & Hd) w; [lia|].
  simpl. destruct (Nat.eq_dec j i) as [->|Hne].
  - unfold declaresOrder in Hd.
    destruct (declaredOrder m (nth i ids EmptyString)) as [o'|];
      [|discriminate].
    rewrite Hd, Hk. reflexivity.
  - assert (Hrec : exists j, j < i /\
                     declaresOrder m (nth j ids EmptyString) = true)
      by (exists j; split; [lia|exact Hd]).
    destruct (declaredOrder m (nth i ids EmptyString)) as [o'|];
      [|now apply IH].
    destruct (truthy_order o'); [|now apply IH].
    rewrite Hk. reflexivity.
Qed.

(** A list whose filtered image ends in [k] splits at the last occurrence
    that passes the filter. *)
Lemma filter_last_split {A : Type} (f : A -> bool) (l a : list A) (k : A) :
  filter f l = a ++ [k] ->
  exists l1 l2,
    l = l1 ++ k :: l2 /\ filter f l1 = a /\ f k = true /\
    Forall (fun x => f x = false) l2.
Proof.
  induction l as [|x l IH] using rev_ind; intros H.
  - destruct a; discriminate.
  - rewrite filter_app in H. simpl in H. destruct (f x) eqn:Fx.
    + apply app_inj_tail in H as [Ha ->].
      exists l, []. repeat split; auto.
    + rewrite app_nil_r in H. destruct (IH H) as (l1 & l2 & -> & Ha & Fk & Fl).
      exists l1, (l2 ++ [x]). repeat split; auto.
      * now rewrite <- app_assoc.
      * apply Forall_app. split; [exact Fl|]. now constructor.
Qed.

Lemma filter_nonempty_exists {A : Type} (f : A -> bool) (l : list A) (d : A) :
  filter f l <> [] -> exists j, j < length l /\ f (nth j l d) = true.
Proof.
  induction l as [|x l IH]; simpl; intros H; [contradiction|].
  destruct (f x) eqn:Fx.
  - exists 0. split; [lia|exact Fx].
  - destruct (IH H) as (j & Hj & Fj). exists (S j). split; [lia|exact Fj].
Qed.

(** The result of the scan when the last column that declares an order has
    a non-empty identifier [k]: [k] wins, and a warning is written exactly
    when an earlier column declares an order too. *)
Lemma scanColumns_last (m : ColumnOptionsMap) (ids a : list string)
    (k : string) :
  filter (declaresOrder m) ids = a ++ [k] ->
  k <> EmptyString ->
  forall w,
    scanColumns m ids (length ids) null None w =
    Normal ((orderOfColumn m k, Some k),
            {| this := this w;
               console := console w ++
                 match a with [] => [] | _ :: _ => [conflictWarning k] end |}).
Proof.
  intros Hs Hk w.
  destruct (filter_last_split _ _ _ _ Hs) as (l1 & l2 & -> & Ha & Fk & Fl).
  assert (Tk : truthy_string k = true).
  { unfold truthy_string. destruct (String.eqb_spec k EmptyString); auto. }
  replace (length (l1 ++ k :: l2)) with (length l2 + S (length l1))
    by (rewrite length_app; simpl; lia).
  rewrite scanColumns_skip.
  2:{ intros i Hi. rewrite app_nth2 by lia.
      replace (i - length l1) with (S (i - S (length l1))) by lia. simpl.
      rewrite Forall_forall in Fl. apply Fl. apply nth_In. lia. }
  cbn [scanColumns]. rewrite app_nth2 by lia.
  rewrite Nat.sub_diag. cbn [nth].
  unfold orderOfColumn. unfold declaresOrder in Fk.
  destruct (declaredOrder m k) as [o|]; [|discriminate]. rewrite Fk.
  destruct a as [|x a].
  - replace (length l1) with (length l1 + 0) by lia.
    rewrite scanColumns_skip.
    + simpl. unfold ret. now rewrite app_nil_r, world_eta.
    + intros i Hi. rewrite app_nth1 by lia.
      assert (Fa : Forall (fun y => declaresOrder m y = false) l1).
      { clear -Ha. induction l1 as [|y l1 IH]; [constructor|].
        simpl in Ha. destruct (declaresOrder m y) eqn:E; [discriminate|].
        constructor; auto. }
      rewrite Forall_forall in Fa. apply Fa. apply nth_In. lia.
  - apply scanColumns_conflict; [exact Tk|].
    destruct (filter_nonempty_exists (declaresOrder m) l1 EmptyString)
      as (j & Hj & Fj); [rewrite Ha; discriminate|].
    exists j. split; [exact Hj|]. rewrite app_nth1 by lia. exact Fj.
Qed.

(** ** Frame facts *)

Lemma modifierOf_spec (self : SortingController) :
  modifierOf self =
  match currentSorting self with
  | Some {| columnId := Some id; order := o |} =>
      if truthy_order o && truthy_string id
      then Some {| orderByColumn := id;
                   direction := o;
                   compare :=
                     declaredCompare (columnOptionsMap (grid (querying self)))
                       id |}
      else None
  | _ => None
  end.
Proof.
  unfold modifierOf, createModifier, bind, getThis. simpl.
  destruct (currentSorting self) as [[[id|] o]|]; simpl; try reflexivity.
  - destruct (truthy_order o), (truthy_string id); reflexivity.
  - destruct (truthy_order o); reflexivity.
Qed.

(** The modifier depends on the current state and the configuration only. *)
Lemma modifierOf_ext (a b : SortingController) :
  currentSorting a = currentSorting b ->
  grid (querying a) = grid (querying b) ->
  modifierOf a = modifierOf b.
Proof. intros H G. rewrite !modifierOf_spec, H, G. reflexivity. Qed.

(** What [setSorting] leaves behind. *)
Lemma setSorting_post (o : ColumnSortingOrder) (id : option string) (w : World) :
  exists w',
    setSorting o id w = Normal (tt, w') /\
    currentSorting (this w') = Some {| columnId := id; order := o |} /\
    initialSorting (this w') = initialSorting (this w) /\
    grid (querying (this w')) = grid (querying (this w)) /\
    console w' = console w /\
    modifier (this w') = modifierOf (this w') /\
    (differs (currentSorting (this w)) id o ->
       shouldBeUpdated (querying (this w')) = true) /\
    (currentSorting (this w) = Some {| columnId := id; order := o |} ->
       shouldBeUpdated (querying (this w')) =
       shouldBeUpdated (querying (this w))).
Proof.
  eexists. split; [apply setSorting_run|].
  destruct (negb (opt_id_eqb (columnId_of (currentSorting (this w))) id)
            || negb (opt_order_eqb (order_of (currentSorting (this w)))
                                   (Some o))) eqn:T; cbn.
  - repeat split; try reflexivity.
    + apply modifierOf_ext; reflexivity.
    + intros E. apply setSorting_test_false in E. congruence.
  - apply setSorting_test_false in T. repeat split; try reflexivity.
    + exact T.
    + apply modifierOf_ext; reflexivity.
    + intros D. apply differs_not_same in D. contradiction.
Qed.

(** What [loadOptions] leaves behind. *)
Lemma loadOptions_post (w : World) :
  exists w',
    loadOptions w = Normal (tt, w') /\
    initialSorting (this w') = Some (stateFromOptions (configOf w)) /\
    grid (querying (this w')) = grid (querying (this w)) /\
    console w' = console w ++ warningsFromOptions (configOf w) /\
    (initialSorting (this w) <> Some (stateFromOptions (configOf w)) ->
       currentSorting (this w') = Some (stateFromOptions (configOf w)) /\
       modifier (this w') = modifierOf (this w')) /\
    (initialSorting (this w) = Some (stateFromOptions (configOf w)) ->
       this w' = this w) /\
    (shouldBeUpdated (querying (this w)) = true ->
       shouldBeUpdated (querying (this w')) = true).
Proof.
  rewrite loadOptions_run. cbv zeta.
  destruct (negb (opt_id_eqb (columnId (stateFromOptions (configOf w)))
                    (columnId_of (initialSorting (this w))))
            || negb (opt_order_eqb
                       (Some (order (stateFromOptions (configOf w))))
                       (order_of (initialSorting (this w))))) eqn:T.
  - assert (N : initialSorting (this w) <> Some (stateFromOptions (configOf w)))
      by (intros Hi; apply loadOptions_test_false in Hi; congruence).
    match goal with
    | |- context [setSorting ?o ?id ?w0] =>
        destruct (setSorting_post o id w0)
          as (w' & R & C & I & G & K & Mo & D & S)
    end.
    exists w'. split; [exact R|]. cbn in *.
    assert (E : currentSorting (this w') = Some (stateFromOptions (configOf w)))
      by (rewrite C; now destruct (stateFromOptions (configOf w))).
    repeat split; auto.
    + intros Hi. contradiction.
    + intros F.
      destruct (differs_dec (currentSorting (this w))
                  (columnId (stateFromOptions (configOf w)))
                  (order (stateFromOptions (configOf w)))) as [Df|Sm].
      * now apply D.
      * rewrite (S Sm). exact F.
  - apply loadOptions_test_false in T. eexists. split; [reflexivity|]. cbn.
    repeat split; intros; auto; contradiction.
Qed.

(** Every host call returns, and none of them lowers a raised flag. *)
Lemma call_keeps_flag (c : HostCall) (w : World) :
  shouldBeUpdated (querying (this w)) = true ->
  exists w', call c w = Normal (tt, w') /\
             shouldBeUpdated (querying (this w')) = true.
Proof.
  intros F. destruct c as [o id| |m]; simpl.
  - destruct (setSorting_post o id w) as (w' & R & _ & _ & _ & _ & _ & D & S).
    exists w'. split; [exact R|].
    destruct (differs_dec (currentSorting (this w)) id o) as [Df|Sm].
    + now apply D.
    + rewrite (S Sm). exact F.
  - destruct (loadOptions_post w) as (w' & R & _ & _ & _ & _ & _ & K).
    exists w'. split; [exact R|]. now apply K.
  - eexists. split; [reflexivity|]. exact F.
Qed.

Lemma calls_keep_flag (cs : list HostCall) :
  forall w,
    shouldBeUpdated (querying (this w)) = true ->
    exists w', calls cs w = Normal (tt, w') /\
               shouldBeUpdated (querying (this w')) = true.
Proof.
  induction cs as [|c cs IH]; intros w F.
  - exists w. split; [reflexivity|exact F].
  - destruct (call_keeps_flag c w F) as (w1 & R1 & F1).
    destruct (IH w1 F1) as (w2 & R2 & F2).
    exists w2. split; [|exact F2].
    simpl. unfold bind. rewrite R1. exact R2.
Qed.

(** Direct [setSorting] calls touch neither the recorded initial state nor
    the configuration. *)
Lemma setSorting_calls_frame (args : list (ColumnSortingOrder * option string)) :
  forall w,
    exists w',
      calls (map (fun a => CallSetSorting (fst a) (snd a)) args) w
        = Normal (tt, w') /\
      initialSorting (this w') = initialSorting (this w) /\
      grid (querying (this w')) = grid (querying (this w)).
Proof.
  induction args as [|[o id] args IH]; intros w.
  - exists w. repeat split.
  - destruct (setSorting_post o id w) as (w1 & R1 & _ & I1 & G1 & _).
    destruct (IH w1) as (w2 & R2 & I2 & G2).
    exists w2. repeat split; try congruence.
    simpl. unfold bind. rewrite R1. exact R2.
Qed.

(** The derived state and warnings when the last column that declares an
    order has a non-empty identifier. *)
Lemma derived_last (m : ColumnOptionsMap) (a : list string) (k : string) :
  sortedColumns m = a ++ [k] ->
  k <> EmptyString ->
  stateFromOptions (Some m) =
    {| columnId := Some k; order := orderOfColumn m k |} /\
  warningsFromOptions (Some m) =
    match a with [] => [] | _ :: _ => [conflictWarning k] end.
Proof.
  intros Hs Hk. unfold stateFromOptions, warningsFromOptions,
    getSortingOptions, bind, getThis. simpl.
  rewrite (scanColumns_last m (Object_keys m) a k Hs Hk). split; reflexivity.
Qed.

Lemma lastSortedColumn_split (m : ColumnOptionsMap) (k : string) :
  lastSortedColumn m = Some k ->
  exists a, sortedColumns m = a ++ [k].
Proof.
  unfold lastSortedColumn. induction (sortedColumns m) as [|x l IH] using rev_ind.
  - discriminate.
  - intros H. rewrite map_app in H. simpl in H. rewrite last_last in H.
    injection H as ->. now exists l.
Qed.

(** * The claims *)

(** ** Conflict resolution *)

(** X11.  When two or more columns declare a non-empty sorting order and
    the last of them in the order of [Object.keys] has a non-empty
    identifier [k], [loadOptions()] returns, the scan writes exactly one
    conflict warning (naming [k], also when three or more columns declare an
    order), and on a controller whose recorded initial state differs from
    the derived one - a freshly constructed controller in particular - the
    resulting [currentSorting] is column [k] with the order [k] declares. *)
Theorem loadOptions_last_key_wins (m : ColumnOptionsMap) (k : string)
    (w : World) :
  configOf w = Some m ->
  2 <= length (sortedColumns m) ->
  lastSortedColumn m = Some k ->
  k <> EmptyString ->
  exists w',
    loadOptions w = Normal (tt, w') /\
    console w' = console w ++ [conflictWarning k] /\
    (initialSorting (this w)
       <> Some {| columnId := Some k; order := orderOfColumn m k |} ->
     currentSorting (this w')
       = Some {| columnId := Some k; order := orderOfColumn m k |}).
Proof.
  intros Hc Hn Hl Hk.
  destruct (lastSortedColumn_split m k Hl) as (a & Ha).
  destruct (derived_last m a k Ha Hk) as (Hs & Hw).
  assert (Hw' : warningsFromOptions (Some m) = [conflictWarning k]).
  { rewrite Hw. destruct a; [|reflexivity].
    rewrite Ha in Hn. simpl in Hn. lia. }
  destruct (loadOptions_post w) as (w' & R & _ & _ & K & Ch & _).
  rewrite Hc, Hs in Ch. rewrite Hc, Hw' in K.
  exists w'. repeat split; auto. intros N. now apply Ch.
Qed.

Lemma loadOptions_last_key_wins_witness :
  configOf (freshWorld (Some threeSortedColumns)) = Some threeSortedColumns /\
  2 <= length (sortedColumns threeSortedColumns) /\
  lastSortedColumn threeSortedColumns = Some "C" /\
  "C" <> EmptyString /\
  exists w',
    loadOptions (freshWorld (Some threeSortedColumns)) = Normal (tt, w') /\
    console w' = [conflictWarning "C"] /\
    currentSorting (this w')
      = Some {| columnId := Some "C"; order := ascending |}.
Proof.
  assert (H1 : configOf (freshWorld (Some threeSortedColumns))
               = Some threeSortedColumns) by reflexivity.
  assert (H2 : 2 <= length (sortedColumns threeSortedColumns))
    by (vm_compute; lia).
  assert (H3 : lastSortedColumn threeSortedColumns = Some "C") by reflexivity.
  assert (H4 : "C" <> EmptyString) by discriminate.
  repeat split; try assumption.
  destruct (loadOptions_last_key_wins threeSortedColumns "C"
              (freshWorld (Some threeSortedColumns)) H1 H2 H3 H4)
    as (w' & R & K & C).
  exists w'. split; [exact R|]. split; [exact K|].
  apply C. discriminate.
Defined.

(** C1, at the input where the code departs from it.  Columns [a] and then
    the empty identifier are declared, both with an order, so the last
    column that declares one is the empty identifier.  On a fresh controller
    [loadOptions()] ends with [a] as [currentSorting.columnId] and writes no
    warning: the test [if (foundColumnId)] takes the empty identifier found
    first for no column found.  With [A] and [B] in place of the two
    identifiers the same call ends with [B] and writes one warning. *)
Lemma loadOptions_empty_id_failing_input :
  (2 <= length (sortedColumns emptyIdColumns) /\
   lastSortedColumn emptyIdColumns = Some EmptyString /\
   exists w',
     loadOptions (freshWorld (Some emptyIdColumns)) = Normal (tt, w') /\
     currentSorting (this w')
       = Some {| columnId := Some "a"; order := ascending |} /\
     columnId_of (currentSorting (this w'))
       <> lastSortedColumn emptyIdColumns /\
     console w' = []) /\
  (2 <= length (sortedColumns conflictingColumns) /\
   lastSortedColumn conflictingColumns = Some "B" /\
   exists w',
     loadOptions (freshWorld (Some conflictingColumns)) = Normal (tt, w') /\
     currentSorting (this w')
       = Some {| columnId := Some "B"; order := descending |} /\
     console w' = [conflictWarning "B"]).
Proof.
  split.
  - split; [vm_compute; lia|]. split; [reflexivity|].
    eexists. split; [vm_compute; reflexivity|].
    split; [reflexivity|]. split; [discriminate|reflexivity].
  - split; [vm_compute; lia|]. split; [reflexivity|].
    eexists. split; [vm_compute; reflexivity|]. split; reflexivity.
Qed.

(** The guard of [loadOptions] at work: once the options have been loaded
    and the caller has sorted by [A], loading the same options again keeps
    [A], although [B] is the last column that declares an order. *)
Example loadOptions_guard_keeps_caller_column :
  exists w,
    calls [CallLoadOptions; CallSetSorting ascending (Some "A");
           CallLoadOptions]
      (freshWorld (Some conflictingColumns)) = Normal (tt, w) /\
    lastSortedColumn conflictingColumns = Some "B" /\
    currentSorting (this w)
      = Some {| columnId := Some "A"; order := ascending |}.
Proof.
  eexists. split; [vm_compute; reflexivity|]. split; reflexivity.
Qed.

(** ** No validation of the order *)

(** C2 (as amended).  [setSorting] checks nothing at run time: for every
    order that is [null] or a string, a string outside the enumerated set
    included, and every identifier, absent or a string, the call returns
    normally and the stored pair is exactly the pair of the arguments,
    neither rejected nor coerced. *)
Theorem setSorting_accepts_any_order (o : ColumnSortingOrder)
    (id : option string) (w : World) :
  exists w',
    setSorting o id w = Normal (tt, w') /\
    currentSorting (this w') = Some {| columnId := id; order := o |}.
Proof.
  destruct (setSorting_post o id w) as (w' & R & C & _).
  exists w'. split; assumption.
Qed.

(** C2 as stated fails: an order outside the enumerated set is stored. *)
Lemma setSorting_unrecognized_order_counterexample :
  enumerated (str "sideways") = false /\
  setSorting (str "sideways") (Some "A") (freshWorld None)
    <> Throw InvalidArgument /\
  exists w',
    setSorting (str "sideways") (Some "A") (freshWorld None)
      = Normal (tt, w') /\
    currentSorting (this w')
      = Some {| columnId := Some "A"; order := str "sideways" |}.
Proof.
  split; [reflexivity|]. split; [vm_compute; discriminate|].
  eexists. split; [vm_compute; reflexivity|reflexivity].
Qed.

(** ** Idempotence *)

(** C3.  Two successive calls of [setSorting] with the same arguments, the
    flag being cleared in between and the configuration left alone: both
    return, the flag is still false after the second, and both leave the
    same modifier descriptor. *)
Theorem setSorting_idempotent (o : ColumnSortingOrder) (id : option string)
    (w : World) :
  exists w1 w2,
    setSorting o id w = Normal (tt, w1) /\
    setSorting o id (clearShouldBeUpdated w1) = Normal (tt, w2) /\
    shouldBeUpdated (querying (this w2)) = false /\
    modifier (this w2) = modifier (this w1).
Proof.
  destruct (setSorting_post o id w) as (w1 & R1 & C1 & _ & _ & _ & M1 & _).
  destruct (setSorting_post o id (clearShouldBeUpdated w1))
    as (w2 & R2 & C2 & _ & G2 & _ & M2 & _ & S2).
  exists w1, w2. split; [exact R1|]. split; [exact R2|]. split.
  - rewrite S2; [reflexivity|exact C1].
  - rewrite M1, M2. apply modifierOf_ext; [congruence|]. rewrite G2. reflexivity.
Qed.

(** ** Monotonic dirtiness *)

(** C4.  A call of [setSorting] whose pair differs from the stored one (an
    unset [currentSorting] differs from every pair) raises
    [shouldBeUpdated], and after any further sequence of [setSorting] and
    [loadOptions] calls - even with the configuration replaced in between -
    the flag is still raised. *)
Theorem setSorting_dirty_stays (o : ColumnSortingOrder) (id : option string)
    (w : World) :
  differs (currentSorting (this w)) id o ->
  exists w1,
    setSorting o id w = Normal (tt, w1) /\
    shouldBeUpdated (querying (this w1)) = true /\
    forall cs : list HostCall,
      exists w2,
        calls cs w1 = Normal (tt, w2) /\
        shouldBeUpdated (querying (this w2)) = true.
Proof.
  intros D.
  destruct (setSorting_post o id w) as (w1 & R1 & _ & _ & _ & _ & _ & F & _).
  exists w1. split; [exact R1|]. split; [now apply F|].
  intros cs. apply calls_keep_flag. now apply F.
Qed.

Lemma setSorting_dirty_stays_witness :
  differs (currentSorting (this (freshWorld (Some conflictingColumns))))
    (Some "A") descending /\
  exists w1,
    setSorting descending (Some "A") (freshWorld (Some conflictingColumns))
      = Normal (tt, w1) /\
    shouldBeUpdated (querying (this w1)) = true /\
    forall cs : list HostCall,
      exists w2,
        calls cs w1 = Normal (tt, w2) /\
        shouldBeUpdated (querying (this w2)) = true.
Proof.
  assert (D : differs
                (currentSorting (this (freshWorld (Some conflictingColumns))))
                (Some "A") descending) by (simpl; exact I).
  split; [exact D|].
  exact (setSorting_dirty_stays descending (Some "A")
           (freshWorld (Some conflictingColumns)) D).
Defined.

(** ** Rebuilding the modifier *)

(** C5.  Every call of [setSorting] returns with the modifier rebuilt from
    the state and the configuration as they are after the call: running
    [createModifier] again gives the stored modifier, and for a non-empty
    identifier and order it is the descriptor with the comparator the
    column declares now, whatever modifier was stored before.  When the
    arguments equal the stored pair, [currentSorting] and the dirty flag
    are left as they were. *)
Theorem setSorting_rebuilds_modifier (o : ColumnSortingOrder)
    (id : option string) (w : World) :
  exists w',
    setSorting o id w = Normal (tt, w') /\
    createModifier w' = Normal (modifier (this w'), w') /\
    (forall c, id = Some c -> c <> EmptyString -> truthy_order o = true ->
       modifier (this w') =
       Some {| orderByColumn := c;
               direction := o;
               compare := declaredCompare (configOf w) c |}) /\
    (currentSorting (this w) = Some {| columnId := id; order := o |} ->
       currentSorting (this w') = currentSorting (this w) /\
       shouldBeUpdated (querying (this w')) =
       shouldBeUpdated (querying (this w))).
Proof.
  destruct (setSorting_post o id w) as (w' & R & C & _ & G & _ & Mo & _ & S).
  exists w'. split; [exact R|]. split; [|split].
  - rewrite createModifier_run, Mo. reflexivity.
  - intros c -> Hc Ho. rewrite Mo, modifierOf_spec, C, Ho, G.
    unfold truthy_string. destruct (String.eqb_spec c EmptyString);
      [contradiction|reflexivity].
  - intros E. split; [congruence|now apply S].
Qed.

Lemma setSorting_rebuilds_modifier_witness :
  currentSorting (this staleComparatorWorld)
    = Some {| columnId := Some "A"; order := ascending |} /\
  modifier (this staleComparatorWorld)
    = Some {| orderByColumn := "A"; direction := ascending;
              compare := Some (fnRef 1) |} /\
  exists w',
    setSorting ascending (Some "A") staleComparatorWorld = Normal (tt, w') /\
    modifier (this w')
      = Some {| orderByColumn := "A"; direction := ascending;
                compare := Some (fnRef 2) |} /\
    currentSorting (this w') = currentSorting (this staleComparatorWorld) /\
    shouldBeUpdated (querying (this w')) = false.
Proof.
  split; [reflexivity|]. split; [reflexivity|].
  destruct (setSorting_rebuilds_modifier ascending (Some "A")
              staleComparatorWorld) as (w' & R & _ & Hm & Hs).
  exists w'. split; [exact R|]. split.
  - apply (Hm "A"); [reflexivity|discriminate|reflexivity].
  - apply Hs. reflexivity.
Defined.

(** ** Loading the options twice *)

(** C6 (as amended).  A second [loadOptions()] with the configuration
    unchanged leaves the controller exactly as it was - the flag, whatever
    the host set it to in between, [currentSorting] and the modifier - but
    it scans the options again and writes the same warnings as the first
    call once more. *)
Theorem loadOptions_twice (w : World) (b : bool) :
  exists w1 w2,
    loadOptions w = Normal (tt, w1) /\
    loadOptions (withShouldBeUpdated b w1) = Normal (tt, w2) /\
    this w2 = this (withShouldBeUpdated b w1) /\
    shouldBeUpdated (querying (this w2)) = b /\
    console w1 = console w ++ warningsFromOptions (configOf w) /\
    console w2 = console w1 ++ warningsFromOptions (configOf w).
Proof.
  destruct (loadOptions_post w) as (w1 & R1 & I1 & G1 & K1 & _).
  destruct (loadOptions_post (withShouldBeUpdated b w1))
    as (w2 & R2 & _ & _ & K2 & _ & S2 & _).
  assert (Ec : configOf (withShouldBeUpdated b w1) = configOf w)
    by (unfold configOf; simpl; now rewrite G1).
  rewrite Ec in *.
  exists w1, w2. split; [exact R1|]. split; [exact R2|].
  assert (E : this w2 = this (withShouldBeUpdated b w1))
    by (apply S2; exact I1).
  repeat split; auto. rewrite E. reflexivity.
Qed.

(** C6 as stated fails: with two columns declaring an order, the second
    [loadOptions()] writes the conflict warning a second time. *)
Lemma loadOptions_twice_warns_again_counterexample :
  exists w1 w2,
    loadOptions (freshWorld (Some conflictingColumns)) = Normal (tt, w1) /\
    loadOptions (clearShouldBeUpdated w1) = Normal (tt, w2) /\
    console w1 = [conflictWarning "B"] /\
    console w2 = [conflictWarning "B"; conflictWarning "B"].
Proof.
  eexists. eexists. split; [vm_compute; reflexivity|].
  split; [vm_compute; reflexivity|]. split; reflexivity.
Qed.

(** ** Reloading does not override the caller *)

(** C7.  After a [loadOptions()], whatever state a sequence of direct
    [setSorting] calls installs, a further [loadOptions()] with the
    configuration unchanged leaves [currentSorting] and the modifier (in
    fact the whole controller) as those calls left them. *)
Theorem loadOptions_keeps_caller_state (w : World)
    (args : list (ColumnSortingOrder * option string)) :
  exists w1 w2 w3,
    loadOptions w = Normal (tt, w1) /\
    calls (map (fun a => CallSetSorting (fst a) (snd a)) args) w1
      = Normal (tt, w2) /\
    loadOptions w2 = Normal (tt, w3) /\
    currentSorting (this w3) = currentSorting (this w2) /\
    modifier (this w3) = modifier (this w2) /\
    this w3 = this w2.
Proof.
  destruct (loadOptions_post w) as (w1 & R1 & I1 & G1 & _).
  destruct (setSorting_calls_frame args w1) as (w2 & R2 & I2 & G2).
  destruct (loadOptions_post w2) as (w3 & R3 & _ & _ & _ & _ & S3 & _).
  assert (Ec : configOf w2 = configOf w)
    by (unfold configOf; now rewrite G2, G1).
  assert (E : this w3 = this w2)
    by (apply S3; rewrite Ec; congruence).
  exists w1, w2, w3. rewrite E. repeat split; assumption.
Qed.

(** ** Empty and absent configuration *)

Lemma derived_none (cfg : option ColumnOptionsMap) :
  (cfg = None \/
   exists m, cfg = Some m /\
             Forall (fun k => declaresOrder m k = false) (Object_keys m)) ->
  stateFromOptions cfg = {| columnId := None; order := null |} /\
  warningsFromOptions cfg = [].
Proof.
  intros [->|(m & -> & F)]; [split; reflexivity|].
  unfold stateFromOptions, warningsFromOptions, getSortingOptions, bind,
    getThis. simpl.
  replace (length (Object_keys m)) with (length (Object_keys m) + 0) by lia.
  rewrite scanColumns_skip.
  - split; reflexivity.
  - intros i Hi. rewrite Forall_forall in F. apply F. apply nth_In. lia.
Qed.

(** C8.  With no column options map at all, or with a map (empty or not) in
    which no column declares a sorting order, [getSortingOptions] returns
    normally with [order = null] and no [columnId], and writes nothing. *)
Theorem getSortingOptions_without_sorting (w : World) :
  (configOf w = None \/
   exists m, configOf w = Some m /\
             Forall (fun k => declaresOrder m k = false) (Object_keys m)) ->
  getSortingOptions w = Normal ({| columnId := None; order := null |}, w).
Proof.
  intros H. destruct (derived_none (configOf w) H) as (Hs & Hw).
  rewrite getSortingOptions_run, Hs, Hw, app_nil_r, world_eta. reflexivity.
Qed.

Lemma getSortingOptions_without_sorting_witness :
  getSortingOptions (freshWorld None)
    = Normal ({| columnId := None; order := null |}, freshWorld None) /\
  getSortingOptions (freshWorld (Some []))
    = Normal ({| columnId := None; order := null |}, freshWorld (Some [])) /\
  getSortingOptions (freshWorld (Some unsortedColumns))
    = Normal ({| columnId := None; order := null |},
              freshWorld (Some unsortedColumns)).
Proof.
  split; [|split].
  - apply (getSortingOptions_without_sorting (freshWorld None)).
    left. reflexivity.
  - apply (getSortingOptions_without_sorting (freshWorld (Some []))).
    right. exists []. split; [reflexivity|]. simpl. constructor.
  - apply (getSortingOptions_without_sorting
             (freshWorld (Some unsortedColumns))).
    right. exists unsortedColumns. split; [reflexivity|].
    simpl. repeat constructor.
Defined.

(** ** Building the modifier *)

(** C9 (as amended).  [createModifier] returns no modifier when
    [currentSorting] is unset, when [columnId] is absent or the empty
    string, and when [order] is [null] or the empty string; in every other
    state it returns the descriptor with [orderByColumn = columnId],
    [direction = order] and the comparator of that column's entry in the
    configuration, if it declares one.  It never changes the world. *)
Theorem createModifier_cases (w : World) :
  (currentSorting (this w) = None -> createModifier w = Normal (None, w)) /\
  (forall s,
     currentSorting (this w) = Some s ->
     columnId s = None \/ columnId s = Some EmptyString \/
     order s = null \/ order s = str EmptyString ->
     createModifier w = Normal (None, w)) /\
  (forall id o,
     currentSorting (this w) = Some {| columnId := Some id; order := o |} ->
     id <> EmptyString -> o <> null -> o <> str EmptyString ->
     createModifier w =
     Normal (Some {| orderByColumn := id;
                     direction := o;
                     compare := declaredCompare (configOf w) id |}, w)).
Proof.
  rewrite createModifier_run, modifierOf_spec. repeat split.
  - intros ->. reflexivity.
  - intros [c o] E H. rewrite E. simpl in H.
    destruct H as [-> | [-> | [-> | ->]]]; try reflexivity.
    + now rewrite andb_false_r.
    + now destruct c.
    + now destruct c.
  - intros id o -> Hid Hn He.
    assert (To : truthy_order o = true).
    { destruct o as [|x]; [contradiction|]. simpl. unfold truthy_string.
      destruct (String.eqb_spec x EmptyString); [subst; contradiction|].
      reflexivity. }
    assert (Ti : truthy_string id = true).
    { unfold truthy_string.
      destruct (String.eqb_spec id EmptyString); [contradiction|reflexivity]. }
    rewrite To, Ti. reflexivity.
Qed.

Lemma createModifier_cases_witness :
  createModifier (freshWorld (Some conflictingColumns))
    = Normal (None, freshWorld (Some conflictingColumns)) /\
  createModifier
    (worldWithCurrent None (Some {| columnId := None; order := ascending |}))
    = Normal (None,
        worldWithCurrent None
          (Some {| columnId := None; order := ascending |})) /\
  createModifier staleComparatorWorld
    = Normal (Some {| orderByColumn := "A";
                      direction := ascending;
                      compare := Some (fnRef 2) |}, staleComparatorWorld).
Proof.
  split; [|split].
  - apply (createModifier_cases (freshWorld (Some conflictingColumns))).
    reflexivity.
  - apply (createModifier_cases
             (worldWithCurrent None
                (Some {| columnId := None; order := ascending |})))
      with (s := {| columnId := None; order := ascending |}).
    + reflexivity.
    + left. reflexivity.
  - apply (createModifier_cases staleComparatorWorld)
      with (id := "A") (o := ascending).
    + reflexivity.
    + discriminate.
    + discriminate.
    + discriminate.
Defined.

(** C9 as stated fails for a present but empty identifier: [columnId] is
    there and [order] is non-empty, yet no modifier is built. *)
Lemma createModifier_empty_id_counterexample :
  let s := {| columnId := Some EmptyString; order := ascending |} in
  columnId s <> None /\
  truthy_order (order s) = true /\
  createModifier (worldWithCurrent None (Some s))
    = Normal (None, worldWithCurrent None (Some s)).
Proof.
  split; [discriminate|]. split; reflexivity.
Qed.

(** ** The first load *)

(** C10.  On a controller whose [initialSorting] and [currentSorting] are
    both unset, [loadOptions()] returns with [shouldBeUpdated] raised,
    whatever the configuration - an empty or absent one included. *)
Theorem loadOptions_first_marks_dirty (w : World) :
  initialSorting (this w) = None ->
  currentSorting (this w) = None ->
  exists w',
    loadOptions w = Normal (tt, w') /\
    shouldBeUpdated (querying (this w')) = true.
Proof.
  intros Hi Hc. rewrite loadOptions_run. cbv zeta.
  destruct (negb (opt_id_eqb (columnId (stateFromOptions (configOf w)))
                    (columnId_of (initialSorting (this w))))
            || negb (opt_order_eqb
                       (Some (order (stateFromOptions (configOf w))))
                       (order_of (initialSorting (this w))))) eqn:T.
  - match goal with
    | |- context [setSorting ?o ?id ?w0] =>
        destruct (setSorting_post o id w0)
          as (w' & R & _ & _ & _ & _ & _ & D & _)
    end.
    exists w'. split; [exact R|]. apply D. simpl. rewrite Hc. exact I.
  - apply loadOptions_test_false in T. congruence.
Qed.

Lemma loadOptions_first_marks_dirty_witness :
  initialSorting (this (freshWorld None)) = None /\
  currentSorting (this (freshWorld None)) = None /\
  shouldBeUpdated (querying (this (freshWorld None))) = false /\
  exists w',
    loadOptions (freshWorld None) = Normal (tt, w') /\
    shouldBeUpdated (querying (this w')) = true.
Proof.
  split; [reflexivity|]. split; [reflexivity|]. split; [reflexivity|].
  apply (loadOptions_first_marks_dirty (freshWorld None)); reflexivity.
Defined.

(** * Further properties of the controller *)

(** ** The scan in general *)

(** While no column with a non-empty identifier has been found, a column
    that declares an order under the empty identifier is recorded without a
    warning and the scan goes on. *)
Lemma scanColumns_falsy_run (m : ColumnOptionsMap) (ids : list string)
    (n d : nat) :
  d + n <= length ids ->
  (forall i, n <= i < d + n ->
     declaresOrder m (nth i ids EmptyString) = true ->
     nth i ids EmptyString = EmptyString) ->
  forall fo fc,
    truthy_id fc = false ->
    exists fo' fc',
      scanColumns m ids (d + n) fo fc = scanColumns m ids n fo' fc' /\
      truthy_id fc' = false /\
      ((fo' = fo /\ fc' = fc /\
        forall i, n <= i < d + n ->
          declaresOrder m (nth i ids EmptyString) = false) \/
       (fc' = Some EmptyString /\
        declaredOrder m EmptyString = Some fo' /\
        truthy_order fo' = true /\
        In EmptyString ids)).
Proof.
  induction d as [|d IH]; intros Hlen H fo fc Hf.
  - exists fo, fc. split; [reflexivity|]. split; [exact Hf|].
    left. repeat split. intros i Hi. lia.
  - assert (Hlen' : d + n <= length ids) by lia.
    assert (H' : forall i, n <= i < d + n ->
               declaresOrder m (nth i ids EmptyString) = true ->
               nth i ids EmptyString = EmptyString)
      by (intros i Hi; apply H; lia).
    specialize (IH Hlen' H').
    cbn [Nat.add scanColumns].
    pose proof (H (d + n) ltac:(lia)) as Hc. unfold declaresOrder in Hc.
    destruct (declaredOrder m (nth (d + n) ids EmptyString)) as [o|] eqn:E.
    + destruct (truthy_order o) eqn:To.
      * specialize (Hc eq_refl).
        assert (Hin : In EmptyString ids)
          by (rewrite <- Hc; apply nth_In; lia).
        rewrite Hc in E |- *.
        destruct (IH o (Some EmptyString) eq_refl)
          as (fo' & fc' & R & F & Q).
        exists fo', fc'. split.
        { destruct fc as [f|]; [simpl in Hf; rewrite Hf|]; exact R. }
        split; [exact F|]. right.
        destruct Q as [(-> & -> & _)|Q]; [|exact Q].
        repeat split; auto.
      * destruct (IH fo fc Hf) as (fo' & fc' & R & F & Q).
        exists fo', fc'. split; [exact R|]. split; [exact F|].
        destruct Q as [(-> & -> & N)|Q]; [left|right; exact Q].
        repeat split. intros i Hi.
        destruct (Nat.eq_dec i (d + n)) as [->|Hne].
        -- unfold declaresOrder. now rewrite E.
        -- apply N. lia.
    + destruct (IH fo fc Hf) as (fo' & fc' & R & F & Q).
      exists fo', fc'. split; [exact R|]. split; [exact F|].
      destruct Q as [(-> & -> & N)|Q]; [left|right; exact Q].
      repeat split. intros i Hi.
      destruct (Nat.eq_dec i (d + n)) as [->|Hne].
      * unfold declaresOrder. now rewrite E.
      * apply N. lia.
Qed.

Lemma existsb_filter_nonempty {A : Type} (f : A -> bool) (l : list A) :
  existsb f l = true <-> filter f l <> [].
Proof.
  induction l as [|x l IH]; simpl.
  - split; [discriminate|contradiction].
  - destruct (f x); simpl; [split; [discriminate|reflexivity]|exact IH].
Qed.

(** With a found column whose identifier is non-empty, the rest of the scan
    writes one warning if a column below declares an order and none
    otherwise; the found column stays. *)
Lemma scanColumns_found (m : ColumnOptionsMap) (l1 rest : list string)
    (k : string) (o : ColumnSortingOrder) (w : World) :
  k <> EmptyString ->
  scanColumns m (l1 ++ rest) (length l1) o (Some k) w =
  Normal ((o, Some k),
          {| this := this w;
             console := console w ++
               if existsb (declaresOrder m) l1
               then [conflictWarning k] else [] |}).
Proof.
  intros Hk.
  assert (Tk : truthy_string k = true).
  { unfold truthy_string. destruct (String.eqb_spec k EmptyString); auto. }
  destruct (existsb (declaresOrder m) l1) eqn:E.
  - apply scanColumns_conflict; [exact Tk|].
    apply existsb_filter_nonempty in E.
    destruct (filter_nonempty_exists (declaresOrder m) l1 EmptyString E)
      as (j & Hj & Fj).
    exists j. split; [exact Hj|]. rewrite app_nth1 by lia. exact Fj.
  - replace (length l1) with (length l1 + 0) by lia.
    rewrite scanColumns_skip.
    + simpl. unfold ret. now rewrite app_nil_r, world_eta.
    + intros i Hi. rewrite app_nth1 by lia.
      destruct (declaresOrder m (nth i l1 EmptyString)) eqn:D; [|reflexivity].
      assert (X : existsb (declaresOrder m) l1 = true).
      { apply existsb_exists. exists (nth i l1 EmptyString).
        split; [apply nth_In; lia|exact D]. }
      congruence.
Qed.

(** The scan of a list that splits at the last column [k] that declares an
    order under a non-empty identifier. *)
Lemma scanColumns_winner (m : ColumnOptionsMap) (l1 l2 : list string)
    (k : string) (w : World) :
  declaresOrder m k = true ->
  k <> EmptyString ->
  Forall (fun x => declaresOrder m x = true -> x = EmptyString) l2 ->
  scanColumns m (l1 ++ k :: l2) (length (l1 ++ k :: l2)) null None w =
  Normal ((orderOfColumn m k, Some k),
          {| this := this w;
             console := console w ++
               if existsb (declaresOrder m) l1
               then [conflictWarning k] else [] |}).
Proof.
  intros Dk Hk F2.
  replace (length (l1 ++ k :: l2)) with (length l2 + S (length l1))
    by (rewrite length_app; simpl; lia).
  destruct (scanColumns_falsy_run m (l1 ++ k :: l2) (S (length l1))
              (length l2)) with (fo := null) (fc := @None string)
    as (fo' & fc' & R & Ff & _).
  - rewrite length_app. simpl. lia.
  - intros i Hi. rewrite app_nth2 by lia.
    replace (i - length l1) with (S (i - S (length l1))) by lia. simpl.
    rewrite Forall_forall in F2. apply F2. apply nth_In. lia.
  - reflexivity.
  - rewrite R. cbn [scanColumns]. rewrite app_nth2 by lia.
    rewrite Nat.sub_diag. cbn [nth].
    unfold orderOfColumn. unfold declaresOrder in Dk.
    destruct (declaredOrder m k) as [o|]; [|discriminate]. rewrite Dk.
    destruct fc' as [f|]; [simpl in Ff; rewrite Ff|];
      now apply scanColumns_found.
Qed.

(** Either every column that declares an order has the empty identifier,
    or the list splits at the last one that has a non-empty identifier. *)
Lemma sorted_keys_cases (m : ColumnOptionsMap) (ids : list string) :
  Forall (fun x => declaresOrder m x = true -> x = EmptyString) ids \/
  exists l1 k l2,
    ids = l1 ++ k :: l2 /\ declaresOrder m k = true /\ k <> EmptyString /\
    Forall (fun x => declaresOrder m x = true -> x = EmptyString) l2.
Proof.
  induction ids as [|x ids IH].
  - left. constructor.
  - destruct IH as [A|(l1 & k & l2 & -> & Dk & Hk & F2)].
    + destruct (declaresOrder m x) eqn:Dx.
      * destruct (String.eqb_spec x EmptyString) as [->|Hx].
        -- left. constructor; auto.
        -- right. exists [], x, ids. repeat split; auto.
      * left. constructor; [intros; congruence|exact A].
    + right. exists (x :: l1), k, l2. repeat split; auto.
Qed.

(** From the scan to [getSortingOptions]. *)
Lemma getSortingOptions_of_scan (w w' : World) (m : ColumnOptionsMap)
    (fo : ColumnSortingOrder) (fc : option string) :
  configOf w = Some m ->
  scanColumns m (Object_keys m) (length (Object_keys m)) null None w
    = Normal ((fo, fc), w') ->
  getSortingOptions w = Normal ({| columnId := fc; order := fo |}, w').
Proof.
  unfold configOf, getSortingOptions, bind, getThis. intros -> R.
  rewrite R. reflexivity.
Qed.

(** A world from which [loadOptions] runs as its two branches. *)
Lemma loadOptions_branches (w : World) :
  let s := stateFromOptions (configOf w) in
  let w0 := {| this := this w;
               console := console w ++ warningsFromOptions (configOf w) |} in
  getSortingOptions w = Normal (s, w0) /\
  ((initialSorting (this w) = Some s /\ loadOptions w = Normal (tt, w0)) \/
   (initialSorting (this w) <> Some s /\
    loadOptions w =
    setSorting (order s) (columnId s)
      {| this := set_initialSorting (Some s) (this w);
         console := console w0 |})).
Proof.
  cbv zeta. split; [apply getSortingOptions_run|].
  rewrite loadOptions_run. cbv zeta.
  destruct (negb (opt_id_eqb (columnId (stateFromOptions (configOf w)))
                    (columnId_of (initialSorting (this w))))
            || negb (opt_order_eqb
                       (Some (order (stateFromOptions (configOf w))))
                       (order_of (initialSorting (this w))))) eqn:T.
  - right. split; [|reflexivity].
    intros Hi. apply loadOptions_test_false in Hi. congruence.
  - left. apply loadOptions_test_false in T. split; [exact T|reflexivity].
Qed.

Lemma state_eta (s : SortingState) :
  {| columnId := columnId s; order := order s |} = s.
Proof. now destruct s. Qed.

Lemma lookup_not_in (m : ColumnOptionsMap) (key : string) :
  ~ In key (Object_keys m) -> lookup m key = None.
Proof.
  induction m as [|[k item] m IH]; simpl; intros N; [reflexivity|].
  destruct (String.eqb_spec k key) as [->|Hne].
  - exfalso. apply N. now left.
  - apply IH. intros Hin. apply N. now right.
Qed.

(** ** What the scan returns *)

(** X1.  [getSortingOptions] always returns, leaves the controller as it is
    and writes at most one warning.  The state it returns is either
    [{order: null}] without a column, or a column of the map together with
    the non-empty order that column declares.  A warning is written only
    when at least two columns declare an order, and it names the returned
    column. *)
Theorem getSortingOptions_wellformed (w : World) :
  exists s ws,
    getSortingOptions w =
      Normal (s, {| this := this w; console := console w ++ ws |}) /\
    ((s = {| columnId := None; order := null |} /\ ws = []) \/
     exists m k,
       configOf w = Some m /\
       columnId s = Some k /\
       In k (Object_keys m) /\
       declaredOrder m k = Some (order s) /\
       truthy_order (order s) = true /\
       (ws = [] \/
        (ws = [conflictWarning k] /\ k <> EmptyString /\
         2 <= length (sortedColumns m)))).
Proof.
  destruct (configOf w) as [m|] eqn:C.
  - destruct (sorted_keys_cases m (Object_keys m))
      as [A|(l1 & k & l2 & Hs & Dk & Hk & F2)].
    + destruct (scanColumns_falsy_run m (Object_keys m) 0
                  (length (Object_keys m)))
        with (fo := null) (fc := @None string)
        as (fo' & fc' & R & _ & Q).
      * lia.
      * intros i Hi. rewrite Forall_forall in A. apply A. apply nth_In. lia.
      * reflexivity.
      * rewrite Nat.add_0_r in R.
        exists {| columnId := fc'; order := fo' |}, []. split.
        -- apply getSortingOptions_of_scan with (m := m); [exact C|].
           rewrite R. simpl. unfold ret. now rewrite app_nil_r, world_eta.
        -- destruct Q as [(-> & -> & _)|(-> & D & T & Hin)].
           ++ left. split; reflexivity.
           ++ right. exists m, EmptyString. simpl. repeat split; auto.
    + exists {| columnId := Some k; order := orderOfColumn m k |},
        (if existsb (declaresOrder m) l1 then [conflictWarning k] else []).
      split.
      * apply getSortingOptions_of_scan with (m := m); [exact C|].
        rewrite Hs. now apply scanColumns_winner.
      * right. exists m, k. simpl.
        assert (Hd : declaredOrder m k = Some (orderOfColumn m k) /\
                     truthy_order (orderOfColumn m k) = true).
        { unfold orderOfColumn. unfold declaresOrder in Dk.
          destruct (declaredOrder m k); [split; auto|discriminate]. }
        destruct Hd as (Hd & Ht).
        split; [reflexivity|]. split; [reflexivity|].
        split; [rewrite Hs; apply in_or_app; right; now left|].
        split; [exact Hd|]. split; [exact Ht|].
        destruct (existsb (declaresOrder m) l1) eqn:E; [right|left; reflexivity].
        split; [reflexivity|]. split; [exact Hk|].
        unfold sortedColumns. rewrite Hs, filter_app. simpl. rewrite Dk.
        apply existsb_filter_nonempty in E.
        rewrite length_app. simpl.
        destruct (filter (declaresOrder m) l1); [contradiction|simpl; lia].
  - exists {| columnId := None; order := null |}, []. split; [|left; auto].
    rewrite getSortingOptions_run, C.
    destruct (derived_none None) as (Hs & Hw); [left; reflexivity|].
    now rewrite Hs, Hw.
Qed.

(** X2.  When exactly one column declares a non-empty order,
    [getSortingOptions] returns that column with the order it declares and
    writes no warning - whatever the column's identifier, the empty one
    included, and wherever the column stands among the others. *)
Theorem getSortingOptions_single_column (m : ColumnOptionsMap) (k : string)
    (w : World) :
  configOf w = Some m ->
  sortedColumns m = [k] ->
  getSortingOptions w =
    Normal ({| columnId := Some k; order := orderOfColumn m k |}, w).
Proof.
  intros C Hs. apply getSortingOptions_of_scan with (m := m); [exact C|].
  destruct (String.eqb_spec k EmptyString) as [->|Hk].
  - assert (A : forall x, In x (Object_keys m) ->
                  declaresOrder m x = true -> x = EmptyString).
    { intros x Hin Dx.
      assert (Hf : In x (sortedColumns m))
        by (apply filter_In; split; assumption).
      rewrite Hs in Hf. destruct Hf as [<-|[]]. reflexivity. }
    assert (He : In EmptyString (Object_keys m) /\
                 declaresOrder m EmptyString = true).
    { apply filter_In. fold (sortedColumns m). rewrite Hs. now left. }
    destruct He as (Hin & De).
    destruct (scanColumns_falsy_run m (Object_keys m) 0
                (length (Object_keys m)))
      with (fo := null) (fc := @None string)
      as (fo' & fc' & R & _ & Q).
    + lia.
    + intros i Hi. apply A. apply nth_In. lia.
    + reflexivity.
    + rewrite Nat.add_0_r in R. rewrite R. simpl. unfold ret.
      destruct Q as [(_ & _ & N)|(-> & D & _ & _)].
      * exfalso. destruct (In_nth _ _ EmptyString Hin) as (i & Hi & Hn).
        specialize (N i ltac:(lia)). rewrite Hn in N. congruence.
      * unfold orderOfColumn. rewrite D. reflexivity.
  - rewrite (scanColumns_last m (Object_keys m) [] k Hs Hk).
    now rewrite app_nil_r, world_eta.
Qed.

Lemma getSortingOptions_single_column_witness :
  configOf (freshWorld (Some singleSortedColumns))
    = Some singleSortedColumns /\
  sortedColumns singleSortedColumns = ["B"] /\
  getSortingOptions (freshWorld (Some singleSortedColumns)) =
    Normal ({| columnId := Some "B"; order := descending |},
            freshWorld (Some singleSortedColumns)).
Proof.
  split; [reflexivity|]. split; [reflexivity|].
  apply (getSortingOptions_single_column singleSortedColumns "B"
           (freshWorld (Some singleSortedColumns))); reflexivity.
Defined.

(** X3.  The rule of the scan in full.  Let [k] be the last column that
    declares an order under a non-empty identifier (every column after it
    that declares an order has the empty identifier).  Then
    [getSortingOptions] returns [k] with the order it declares, and it
    writes the warning naming [k] exactly when some column before [k]
    declares an order; a column after [k] never causes a warning. *)
Theorem getSortingOptions_winner (m : ColumnOptionsMap) (l1 l2 : list string)
    (k : string) (w : World) :
  configOf w = Some m ->
  Object_keys m = l1 ++ k :: l2 ->
  declaresOrder m k = true ->
  k <> EmptyString ->
  Forall (fun x => declaresOrder m x = true -> x = EmptyString) l2 ->
  getSortingOptions w =
    Normal ({| columnId := Some k; order := orderOfColumn m k |},
            {| this := this w;
               console := console w ++
                 if existsb (declaresOrder m) l1
                 then [conflictWarning k] else [] |}).
Proof.
  intros C Hs Dk Hk F2.
  apply getSortingOptions_of_scan with (m := m); [exact C|].
  rewrite Hs. now apply scanColumns_winner.
Qed.

Lemma getSortingOptions_winner_witness :
  Object_keys trailingEmptyIdColumns = ["x"] ++ "y" :: [EmptyString] /\
  declaresOrder trailingEmptyIdColumns "y" = true /\
  getSortingOptions (freshWorld (Some trailingEmptyIdColumns)) =
    Normal ({| columnId := Some "y"; order := descending |},
            {| this := this (freshWorld (Some trailingEmptyIdColumns));
               console := [conflictWarning "y"] |}).
Proof.
  split; [reflexivity|]. split; [reflexivity|].
  apply (getSortingOptions_winner trailingEmptyIdColumns ["x"]
           [EmptyString] "y" (freshWorld (Some trailingEmptyIdColumns))).
  - reflexivity.
  - reflexivity.
  - reflexivity.
  - discriminate.
  - constructor; [intros _; reflexivity|constructor].
Defined.

(** ** What loading the options does *)

(** X4.  [loadOptions] always returns, writes exactly what the scan writes,
    and afterwards [initialSorting] is the state the scan derived.  When
    that state differs from the one recorded before, it becomes
    [currentSorting] and the modifier is rebuilt from it.  When it is the
    recorded one, the controller is left exactly as it was: a comparator
    that changed in the options is not picked up by this call. *)
Theorem loadOptions_records_derived_state (w : World) :
  exists s w0 w',
    getSortingOptions w = Normal (s, w0) /\
    loadOptions w = Normal (tt, w') /\
    initialSorting (this w') = Some s /\
    console w' = console w0 /\
    configOf w' = configOf w /\
    (initialSorting (this w) <> Some s ->
       currentSorting (this w') = Some s /\
       createModifier w' = Normal (modifier (this w'), w')) /\
    (initialSorting (this w) = Some s -> this w' = this w).
Proof.
  destruct (loadOptions_post w) as (w' & R & I1 & G & K & Ch & Sm & _).
  exists (stateFromOptions (configOf w)),
    {| this := this w;
       console := console w ++ warningsFromOptions (configOf w) |}, w'.
  split; [apply getSortingOptions_run|]. split; [exact R|].
  split; [exact I1|]. split; [exact K|].
  split; [unfold configOf; now rewrite G|]. split; [|exact Sm].
  intros N. destruct (Ch N) as (C & Mo). split; [exact C|].
  rewrite createModifier_run, Mo. reflexivity.
Qed.

Lemma loadOptions_records_derived_state_witness :
  declaredCompare (configOf staleComparatorWorld) "A" = Some (fnRef 2) /\
  exists w',
    loadOptions staleComparatorWorld = Normal (tt, w') /\
    this w' = this staleComparatorWorld /\
    option_map compare (modifier (this w')) = Some (Some (fnRef 1)).
Proof.
  split; [reflexivity|].
  destruct (loadOptions_records_derived_state staleComparatorWorld)
    as (s & w0 & w' & Rs & R & _ & _ & _ & _ & Sm).
  exists w'. split; [exact R|].
  assert (E : this w' = this staleComparatorWorld).
  { apply Sm. vm_compute in Rs. injection Rs as <- _. reflexivity. }
  split; [exact E|]. rewrite E. reflexivity.
Defined.

(** X5.  [loadOptions] raises the dirty flag only for a real change: if the
    derived state is the recorded initial state or is already the current
    state, the flag keeps its value; if it is neither, the flag is
    raised. *)
Theorem loadOptions_flag (w : World) :
  exists s w0 w',
    getSortingOptions w = Normal (s, w0) /\
    loadOptions w = Normal (tt, w') /\
    (initialSorting (this w) = Some s \/ currentSorting (this w) = Some s ->
       shouldBeUpdated (querying (this w')) =
       shouldBeUpdated (querying (this w))) /\
    (initialSorting (this w) <> Some s ->
     currentSorting (this w) <> Some s ->
       shouldBeUpdated (querying (this w')) = true).
Proof.
  destruct (loadOptions_branches w) as (Rs & B).
  set (s := stateFromOptions (configOf w)) in *.
  destruct B as [(Hi & R)|(Hn & R)].
  - eexists s, _, _. split; [exact Rs|]. split; [exact R|]. split.
    + intros _. reflexivity.
    + intros N. contradiction.
  - match type of R with
    | _ = setSorting ?o ?id ?w1 =>
        destruct (setSorting_post o id w1)
          as (w' & R' & _ & _ & _ & _ & _ & D & S)
    end.
    rewrite R' in R. cbn in D, S. rewrite state_eta in S.
    eexists s, _, w'. split; [exact Rs|]. split; [exact R|]. split.
    + intros [Hi|Hc]; [contradiction|now apply S].
    + intros _ Hc. apply D. apply differs_not_same. now rewrite state_eta.
Qed.

Lemma loadOptions_flag_witness :
  let w := worldWithCurrent (Some singleSortedColumns)
             (Some {| columnId := Some "B"; order := descending |}) in
  initialSorting (this w) = None /\
  shouldBeUpdated (querying (this w)) = false /\
  exists w',
    loadOptions w = Normal (tt, w') /\
    initialSorting (this w')
      = Some {| columnId := Some "B"; order := descending |} /\
    shouldBeUpdated (querying (this w')) = false.
Proof.
  cbv zeta. split; [reflexivity|]. split; [reflexivity|].
  destruct (loadOptions_flag
              (worldWithCurrent (Some singleSortedColumns)
                 (Some {| columnId := Some "B"; order := descending |})))
    as (s & w0 & w' & Rs & R & Keep & _).
  vm_compute in Rs. injection Rs as <- _.
  exists w'. split; [exact R|]. split.
  - vm_compute in R. injection R as <-. reflexivity.
  - rewrite Keep; [reflexivity|]. right. reflexivity.
Defined.

(** X6.  If the options no longer declare any sorting while the recorded
    initial state is something else, [loadOptions] resets the controller:
    [currentSorting] becomes [{order: null}] without a column, the
    modifier is removed, nothing is written to the console, and the flag
    is raised unless the current state was that one already. *)
Theorem loadOptions_resets_when_sorting_removed (w : World) :
  (configOf w = None \/
   exists m, configOf w = Some m /\
             Forall (fun k => declaresOrder m k = false) (Object_keys m)) ->
  initialSorting (this w) <> Some {| columnId := None; order := null |} ->
  exists w',
    loadOptions w = Normal (tt, w') /\
    currentSorting (this w') = Some {| columnId := None; order := null |} /\
    initialSorting (this w') = Some {| columnId := None; order := null |} /\
    modifier (this w') = None /\
    console w' = console w /\
    (currentSorting (this w) <> Some {| columnId := None; order := null |} ->
       shouldBeUpdated (querying (this w')) = true).
Proof.
  intros H N. destruct (derived_none (configOf w) H) as (Hs & Hw).
  destruct (loadOptions_branches w) as (_ & B). rewrite Hs, Hw in B.
  destruct B as [(Hi & _)|(_ & R)]; [contradiction|].
  match type of R with
  | _ = setSorting ?o ?id ?w1 =>
      destruct (setSorting_post o id w1)
        as (w' & R' & C & I1 & _ & K & Mo & D & _)
  end.
  rewrite R' in R. cbn in C, I1, K, D.
  exists w'. split; [exact R|]. split; [exact C|]. split; [exact I1|].
  split; [|split].
  - rewrite Mo, modifierOf_spec, C. reflexivity.
  - rewrite K. apply app_nil_r.
  - intros Hc. apply D. now apply differs_not_same.
Qed.

Lemma loadOptions_resets_when_sorting_removed_witness :
  modifier (this sortingRemovedWorld)
    = Some {| orderByColumn := "B"; direction := descending;
              compare := None |} /\
  exists w',
    loadOptions sortingRemovedWorld = Normal (tt, w') /\
    currentSorting (this w') = Some {| columnId := None; order := null |} /\
    modifier (this w') = None /\
    shouldBeUpdated (querying (this w')) = true.
Proof.
  split; [reflexivity|].
  destruct (loadOptions_resets_when_sorting_removed sortingRemovedWorld)
    as (w' & R & C & _ & Mo & _ & F).
  - right. exists unsortedColumns. split; [reflexivity|].
    simpl. repeat constructor.
  - discriminate.
  - exists w'. split; [exact R|]. split; [exact C|]. split; [exact Mo|].
    apply F. discriminate.
Defined.

(** ** Sequences of calls *)

Lemma call_clear_flag (c : HostCall) (w : World) :
  exists w',
    call c w = Normal (tt, w') /\
    (shouldBeUpdated (querying (this w')) = false ->
       shouldBeUpdated (querying (this w)) = false /\
       currentSorting (this w') = currentSorting (this w)).
Proof.
  destruct c as [o id| |m]; simpl.
  - destruct (setSorting_post o id w) as (w' & R & C & _ & _ & _ & _ & D & S).
    exists w'. split; [exact R|]. intros F.
    destruct (differs_dec (currentSorting (this w)) id o) as [Df|Sm].
    + rewrite (D Df) in F. discriminate.
    + rewrite (S Sm) in F. split; [exact F|congruence].
  - destruct (loadOptions_branches w) as (_ & [(_ & R)|(_ & R)]).
    + eexists. split; [exact R|]. intros F. split; [exact F|reflexivity].
    + match type of R with
      | _ = setSorting ?o ?id ?w1 =>
          destruct (setSorting_post o id w1)
            as (w' & R' & C & _ & _ & _ & _ & D & S);
          destruct (differs_dec (currentSorting (this w1)) id o) as [Df|Sm]
      end.
      * exists w'. split; [congruence|]. intros F.
        rewrite (D Df) in F. discriminate.
      * exists w'. split; [congruence|]. intros F.
        rewrite (S Sm) in F. cbn in F, Sm. split; [exact F|congruence].
  - eexists. split; [reflexivity|]. intros F. split; [exact F|reflexivity].
Qed.

(** X7.  The dirty flag misses no change of state: after any sequence of
    [setSorting] and [loadOptions] calls, with the options replaced in
    between or not, a flag that is still clear means that it was clear at
    the start and that [currentSorting] is what it was at the start. *)
Theorem clear_flag_means_unchanged_sorting (cs : list HostCall) :
  forall w,
    exists w',
      calls cs w = Normal (tt, w') /\
      (shouldBeUpdated (querying (this w')) = false ->
         shouldBeUpdated (querying (this w)) = false /\
         currentSorting (this w') = currentSorting (this w)).
Proof.
  induction cs as [|c cs IH]; intros w.
  - exists w. split; [reflexivity|]. intros F. split; [exact F|reflexivity].
  - destruct (call_clear_flag c w) as (w1 & R1 & H1).
    destruct (IH w1) as (w2 & R2 & H2).
    exists w2. split.
    + simpl. unfold bind. rewrite R1. exact R2.
    + intros F. destruct (H2 F) as (F1 & C2). destruct (H1 F1) as (F0 & C1).
      split; [exact F0|congruence].
Qed.

Lemma clear_flag_means_unchanged_sorting_witness :
  let cs := [CallSetSorting ascending (Some "A"); CallLoadOptions] in
  exists w',
    calls cs staleComparatorWorld = Normal (tt, w') /\
    shouldBeUpdated (querying (this w')) = false /\
    currentSorting (this w') = currentSorting (this staleComparatorWorld).
Proof.
  cbv zeta.
  destruct (clear_flag_means_unchanged_sorting
              [CallSetSorting ascending (Some "A"); CallLoadOptions]
              staleComparatorWorld) as (w' & R & H).
  exists w'. split; [exact R|].
  assert (F : shouldBeUpdated (querying (this w')) = false)
    by (vm_compute in R; injection R as <-; reflexivity).
  split; [exact F|]. apply H. exact F.
Defined.

Lemma call_keeps_sync (c : HostCall) (w : World) :
  isControllerCall c = true ->
  createModifier w = Normal (modifier (this w), w) ->
  exists w',
    call c w = Normal (tt, w') /\
    createModifier w' = Normal (modifier (this w'), w').
Proof.
  intros Hc Hs. destruct c as [o id| |m]; simpl; [| |discriminate].
  - destruct (setSorting_post o id w) as (w' & R & _ & _ & _ & _ & Mo & _).
    exists w'. split; [exact R|]. rewrite createModifier_run, Mo. reflexivity.
  - destruct (loadOptions_branches w) as (_ & [(_ & R)|(_ & R)]).
    + eexists. split; [exact R|].
      rewrite createModifier_run in Hs |- *. cbn.
      injection Hs as Hs. now rewrite Hs.
    + match type of R with
      | _ = setSorting ?o ?id ?w1 =>
          destruct (setSorting_post o id w1)
            as (w' & R' & _ & _ & _ & _ & Mo & _)
      end.
      exists w'. split; [congruence|].
      rewrite createModifier_run, Mo. reflexivity.
Qed.

(** X8.  As long as the options are not replaced, the stored modifier is
    always the one [createModifier] would build: if that holds before a
    sequence of [setSorting] and [loadOptions] calls - as it does on a
    fresh controller - it holds after it. *)
Theorem modifier_stays_in_sync (cs : list HostCall) :
  forall w,
    forallb isControllerCall cs = true ->
    createModifier w = Normal (modifier (this w), w) ->
    exists w',
      calls cs w = Normal (tt, w') /\
      createModifier w' = Normal (modifier (this w'), w').
Proof.
  induction cs as [|c cs IH]; intros w Hc Hs.
  - exists w. split; [reflexivity|exact Hs].
  - simpl in Hc. apply andb_true_iff in Hc as (Hc1 & Hc2).
    destruct (call_keeps_sync c w Hc1 Hs) as (w1 & R1 & S1).
    destruct (IH w1 Hc2 S1) as (w2 & R2 & S2).
    exists w2. split; [|exact S2].
    simpl. unfold bind. rewrite R1. exact R2.
Qed.

Lemma modifier_stays_in_sync_witness :
  let cs := [CallLoadOptions; CallSetSorting ascending (Some "A");
             CallSetSorting null None; CallLoadOptions] in
  let w := freshWorld (Some conflictingColumns) in
  forallb isControllerCall cs = true /\
  createModifier w = Normal (modifier (this w), w) /\
  exists w',
    calls cs w = Normal (tt, w') /\
    createModifier w' = Normal (modifier (this w'), w').
Proof.
  cbv zeta. split; [reflexivity|]. split; [reflexivity|].
  apply (modifier_stays_in_sync
           [CallLoadOptions; CallSetSorting ascending (Some "A");
            CallSetSorting null None; CallLoadOptions]
           (freshWorld (Some conflictingColumns))); reflexivity.
Defined.

(** ** Setting the sorting *)

(** X9.  [setSorting] accepts a column the options do not know: for a
    non-empty identifier that is no key of the column options map (or with
    no map at all) and a non-empty order, the call returns, stores the pair
    and builds the modifier for that column with no comparator. *)
Theorem setSorting_unknown_column (o : ColumnSortingOrder) (c : string)
    (w : World) :
  (configOf w = None \/
   exists m, configOf w = Some m /\ ~ In c (Object_keys m)) ->
  c <> EmptyString ->
  truthy_order o = true ->
  exists w',
    setSorting o (Some c) w = Normal (tt, w') /\
    currentSorting (this w') = Some {| columnId := Some c; order := o |} /\
    modifier (this w') =
      Some {| orderByColumn := c; direction := o; compare := None |}.
Proof.
  intros H Hc Ho.
  destruct (setSorting_post o (Some c) w)
    as (w' & R & C & _ & G & _ & Mo & _).
  exists w'. split; [exact R|]. split; [exact C|].
  rewrite Mo, modifierOf_spec, C, Ho, G.
  assert (Tc : truthy_string c = true).
  { unfold truthy_string. destruct (String.eqb_spec c EmptyString); auto. }
  rewrite Tc. simpl. unfold configOf in H.
  destruct H as [->|(m & -> & N)]; [reflexivity|].
  simpl. now rewrite (lookup_not_in m c N).
Qed.

Lemma setSorting_unknown_column_witness :
  ~ In "Z" (Object_keys conflictingColumns) /\
  exists w',
    setSorting ascending (Some "Z") (freshWorld (Some conflictingColumns))
      = Normal (tt, w') /\
    currentSorting (this w')
      = Some {| columnId := Some "Z"; order := ascending |} /\
    modifier (this w') =
      Some {| orderByColumn := "Z"; direction := ascending;
              compare := None |}.
Proof.
  assert (N : ~ In "Z" (Object_keys conflictingColumns))
    by (simpl; intros [H|[H|[]]]; discriminate).
  split; [exact N|].
  apply (setSorting_unknown_column ascending "Z"
           (freshWorld (Some conflictingColumns))).
  - right. exists conflictingColumns. split; [reflexivity|exact N].
  - discriminate.
  - reflexivity.
Defined.

(** X10.  After [setSorting] there is no modifier exactly when the order
    is [null] or the empty string, or the identifier is absent or the empty
    string - whatever modifier was stored before the call. *)
Theorem setSorting_modifier_absent_iff (o : ColumnSortingOrder)
    (id : option string) (w : World) :
  exists w',
    setSorting o id w = Normal (tt, w') /\
    (modifier (this w') = None <->
     o = null \/ o = str EmptyString \/
     id = None \/ id = Some EmptyString).
Proof.
  destruct (setSorting_post o id w) as (w' & R & C & _ & _ & _ & Mo & _).
  exists w'. split; [exact R|]. rewrite Mo, modifierOf_spec, C.
  destruct id as [c|].
  - destruct o as [|x]; simpl.
    + split; [intros _; now left|reflexivity].
    + unfold truthy_string.
      destruct (String.eqb_spec x EmptyString) as [->|Hx]; simpl.
      * split; [intros _; right; now left|reflexivity].
      * destruct (String.eqb_spec c EmptyString) as [->|Hc]; simpl.
        -- split; [intros _; now repeat right|reflexivity].
        -- split; [discriminate|].
           intros [H|[H|[H|H]]]; try discriminate.
           ++ injection H as H. contradiction.
           ++ injection H as H. contradiction.
  - split; [intros _; right; right; now left|reflexivity].
Qed.

Lemma setSorting_modifier_absent_iff_witness :
  modifier (this staleComparatorWorld) <> None /\
  exists w',
    setSorting null (Some "A") staleComparatorWorld = Normal (tt, w') /\
    modifier (this w') = None.
Proof.
  split; [discriminate|].
  destruct (setSorting_modifier_absent_iff null (Some "A")
              staleComparatorWorld) as (w' & R & H).
  exists w'. split; [exact R|]. apply H. left. reflexivity.
Defined.
